(** * server.py: the [/fetch_data] endpoint, its filter and its sort

    A shallow embedding of [src/server.py].  The endpoint fetches a JSON
    array of income-statement records, keeps the records inside six optional
    bounds ([filter_data]), orders them by one of three fields
    ([sorted(..., reverse=True)]) and answers with the result.

    Python values are dynamically typed and every field access or comparison
    may raise, so the embedding works in an exception monad [result].
    Records are Python dicts with string keys: [gmap string pyval]. *)

From Stdlib Require Import ZArith QArith Ascii String.
From stdpp Require Import base option list gmap strings sorting.

Local Open Scope string_scope.
Local Open Scope list_scope.
Local Open Scope Z_scope.

(** ** Python values and exceptions *)

(** The values a field of a provider record can hold: the JSON scalars.
    A Python [int] is unbounded ([Z]); a [float] is represented by the
    rational it denotes, so that the mixed comparisons of Python, which are
    exact, are comparisons of rationals.  The IEEE specials (NaN and the
    infinities) have no representative here. *)
Inductive pyval : Type :=
  | VNone
  | VBool (b : bool)
  | VInt (z : Z)
  | VFloat (q : Q)
  | VStr (s : string).

(** The exceptions the handler's own code can raise. *)
Inductive pyerror : Type :=
  | KeyError (key : string)
  | TypeError.

Inductive result (A : Type) : Type :=
  | Ok (a : A)
  | Raise (e : pyerror).
Arguments Ok {A} a.
Arguments Raise {A} e.

#[global] Instance result_ret : MRet result := fun A a => Ok a.
#[global] Instance result_bind : MBind result := fun A B f m =>
  match m with
  | Ok a => f a
  | Raise e => Raise e
  end.
#[global] Instance result_fmap : FMap result := fun A B f m =>
  match m with
  | Ok a => Ok (f a)
  | Raise e => Raise e
  end.

Definition raises {A} (m : result A) : Prop := ∃ e, m = Raise e.

(** Python truthiness, as used by [if bound and ...]. *)
Definition truthy (v : pyval) : bool :=
  match v with
  | VNone => false
  | VBool b => b
  | VInt z => negb (z =? 0)
  | VFloat q => negb (Qeq_bool q 0)
  | VStr s => negb (String.eqb s "")
  end.

(** The number a numeric value stands for ([bool] is a subclass of [int]). *)
Definition num_of (v : pyval) : option Q :=
  match v with
  | VBool b => Some (inject_Z (if b then 1 else 0))
  | VInt z => Some (inject_Z z)
  | VFloat q => Some q
  | _ => None
  end.

Definition Qltb (x y : Q) : bool :=
  match (x ?= y)%Q with
  | Lt => true
  | _ => false
  end.

(** [a < b].  Numbers compare by value, strings lexicographically; every
    other pairing raises [TypeError]. *)
Definition py_lt (a b : pyval) : result bool :=
  match a, b with
  | VStr s, VStr t => Ok (String.ltb s t)
  | _, _ =>
      match num_of a, num_of b with
      | Some x, Some y => Ok (Qltb x y)
      | _, _ => Raise TypeError
      end
  end.

(** [a > b], which for these types is [b < a]. *)
Definition py_gt (a b : pyval) : result bool := py_lt b a.

(** ** Records *)

Abbreviation record := (gmap string pyval).

(** [item[key]]: direct subscription, [KeyError] when the key is absent. *)
Definition getitem (item : record) (key : string) : result pyval :=
  match item !! key with
  | Some v => Ok v
  | None => Raise (KeyError key)
  end.

(** ** [filter_data] *)

Section filter_data.
Variables start_date end_date : pyval.
Variables min_revenue max_revenue : pyval.
Variables min_net_income max_net_income : pyval.

(** The condition [bound and cmp(item[field], bound)] of one [if]: the
    right operand is evaluated only when [bound] is truthy. *)
Definition bound_hit (bound : pyval) (item : record) (field : string)
    (cmp : pyval → pyval → result bool) : result bool :=
  if truthy bound then v ← getitem item field; cmp v bound
  else Ok false.

(** The six [if ...: continue] statements in order; [Ok true] when one of
    them fires. *)
Definition skipped (item : record) : result bool :=
  c ← bound_hit start_date item "date" py_lt;
  if c : bool then Ok true else
  c ← bound_hit end_date item "date" py_gt;
  if c : bool then Ok true else
  c ← bound_hit min_revenue item "revenue" py_lt;
  if c : bool then Ok true else
  c ← bound_hit max_revenue item "revenue" py_gt;
  if c : bool then Ok true else
  c ← bound_hit min_net_income item "netIncome" py_lt;
  if c : bool then Ok true else
  bound_hit max_net_income item "netIncome" py_gt.

(** The [for item in data] loop with its accumulator [filtered]. *)
Fixpoint filter_loop (data filtered : list record) : result (list record) :=
  match data with
  | [] => Ok filtered
  | item :: rest =>
      s ← skipped item;
      if s : bool then filter_loop rest filtered
      else filter_loop rest (filtered ++ [item])
  end.

End filter_data.

(** [filter_data(data, start_date, ..., max_net_income)]: the loop started
    with [filtered = []]. *)
Definition filter_data (data : list record)
    (start_date end_date min_revenue max_revenue
       min_net_income max_net_income : pyval) : result (list record) :=
  filter_loop start_date end_date min_revenue max_revenue
    min_net_income max_net_income data [].

(** ** [sorted(filtered_data, key=lambda x: x[field], reverse=True)]

    The builtin first evaluates the key of every element, in list order, and
    then orders the (key, element) pairs using [<] on keys only.  It is
    stable, and [reverse=True] keeps it so: elements with equal keys stay in
    their original order.  The order it produces is modelled by a stable
    insertion sort; any comparison that raises aborts the sort. *)

Abbreviation keyed := (pyval * record)%type.

Fixpoint decorate (field : string) (l : list record) : result (list keyed) :=
  match l with
  | [] => Ok []
  | x :: rest =>
      k ← getitem x field;
      ks ← decorate field rest;
      Ok ((k, x) :: ks)
  end.

(** Insert [x], which precedes every element of [l] in the input, into the
    descending list [l]: it passes the elements with a strictly greater key
    and stops in front of the first one whose key is not greater. *)
Fixpoint insert_desc (x : keyed) (l : list keyed) : result (list keyed) :=
  match l with
  | [] => Ok [x]
  | y :: rest =>
      c ← py_lt x.1 y.1;
      if c : bool then r ← insert_desc x rest; Ok (y :: r)
      else Ok (x :: y :: rest)
  end.

Fixpoint sort_keyed (l : list keyed) : result (list keyed) :=
  match l with
  | [] => Ok []
  | x :: rest => s ← sort_keyed rest; insert_desc x s
  end.

Definition sorted_desc (field : string) (l : list record) : result (list record) :=
  ks ← decorate field l;
  s ← sort_keyed ks;
  Ok (s.*2).

(** The [if sort_by == ... elif ...] chain of the handler. *)
Definition sort_stage (sort_by : string) (filtered_data : list record)
    : result (list record) :=
  if String.eqb sort_by "date" then sorted_desc "date" filtered_data
  else if String.eqb sort_by "revenue" then sorted_desc "revenue" filtered_data
  else if String.eqb sort_by "netIncome" then sorted_desc "netIncome" filtered_data
  else Ok filtered_data.

(** Filter, then sort: the transform the handler applies to the fetched data. *)
Definition transform (data : list record)
    (start_date end_date min_revenue max_revenue
       min_net_income max_net_income : pyval) (sort_by : string)
    : result (list record) :=
  filtered_data ← filter_data data start_date end_date min_revenue max_revenue
                    min_net_income max_net_income;
  sort_stage sort_by filtered_data.

(** ** The handler [fetch_data] *)

(** What the [try] block of the handler ends with.  [requests.get],
    [raise_for_status] and [response.json] raise subclasses of
    [requests.exceptions.RequestException] for a network failure, for an
    error status and for a body that is not JSON; each carries a message,
    which [str(e)] returns.  Otherwise [data] is the parsed body, taken here
    to be the JSON array of objects the provider serves. *)
Inductive request_exception : Type :=
  | ConnectionError (msg : string)
  | HTTPError (msg : string)
  | JSONDecodeError (msg : string).

Definition str (e : request_exception) : string :=
  match e with
  | ConnectionError msg | HTTPError msg | JSONDecodeError msg => msg
  end.

Inductive upstream : Type :=
  | Fetched (data : list record)
  | Failed (e : request_exception).

(** The body handed to [jsonify]: a dict or the list of records. *)
Inductive body : Type :=
  | JsonObject (o : gmap string pyval)
  | JsonArray (records : list record).

(** The handler either returns a response or lets an exception escape (which
    the framework reports as its own internal-server-error page). *)
Inductive outcome : Type :=
  | Respond (status : Z) (b : body)
  | Uncaught (e : pyerror).

Section handler.
(** [int(s)] and [float(s)] on a query string: [None] when they raise
    [ValueError].  They belong to the language, not to this repository. *)
Variable parse_int : string → option Z.
Variable parse_float : string → option Q.

(** [request.args.get(key, type=int)]: [None] when the parameter is absent
    and also when the conversion raises, the default being [None]. *)
Definition args_get_int (args : gmap string string) (key : string) : pyval :=
  match args !! key with
  | Some s => match parse_int s with Some z => VInt z | None => VNone end
  | None => VNone
  end.

Definition args_get_float (args : gmap string string) (key : string) : pyval :=
  match args !! key with
  | Some s => match parse_float s with Some q => VFloat q | None => VNone end
  | None => VNone
  end.

(** [request.args.get(key, default=d, type=str)]. *)
Definition args_get_str (args : gmap string string) (key d : string) : string :=
  match args !! key with
  | Some s => s
  | None => d
  end.

Definition fetch_data (up : upstream) (args : gmap string string) : outcome :=
  match up with
  | Failed e => Respond 500 (JsonObject {[ "error" := VStr (str e) ]})
  | Fetched data =>
      let start_date := args_get_int args "startDate" in
      let end_date := args_get_int args "endDate" in
      let min_revenue := args_get_float args "minRevenue" in
      let max_revenue := args_get_float args "maxRevenue" in
      let min_net_income := args_get_float args "minNetIncome" in
      let max_net_income := args_get_float args "maxNetIncome" in
      let sort_by := args_get_str args "sortBy" "date" in
      match filter_data data start_date end_date min_revenue max_revenue
              min_net_income max_net_income with
      | Raise e => Uncaught e
      | Ok filtered_data =>
          match sort_stage sort_by filtered_data with
          | Raise e => Uncaught e
          | Ok filtered_data => Respond 200 (JsonArray filtered_data)
          end
      end
  end.
End handler.

(** ** Reading records as the specification does *)

(** The number held by a numeric field or bound ([0] when there is none; the
    theorems that use these suppose the value is numeric). *)
Definition bnd (b : pyval) : Q := default 0%Q (num_of b).
Definition fld (r : record) (f : string) : Q := default 0%Q (r !! f ≫= num_of).

(** A record carries a number in field [f]. *)
Definition has_num (r : record) (f : string) : Prop :=
  ∃ v, r !! f = Some v ∧ is_Some (num_of v).

(** The records the provider documents: the three fields are numbers. *)
Definition well_formed (r : record) : Prop :=
  has_num r "date" ∧ has_num r "revenue" ∧ has_num r "netIncome".

(** A bound the handler can pass: absent or zero, or else a number. *)
Definition bound_wf (b : pyval) : Prop := truthy b = true → is_Some (num_of b).

(** Inclusive bounds, each enforced only when present and non-zero. *)
Definition lower_ok (bound : pyval) (r : record) (f : string) : Prop :=
  truthy bound = true → (bnd bound <= fld r f)%Q.
Definition upper_ok (bound : pyval) (r : record) (f : string) : Prop :=
  truthy bound = true → (fld r f <= bnd bound)%Q.

Definition within_bounds
    (start_date end_date min_revenue max_revenue
       min_net_income max_net_income : pyval) (r : record) : Prop :=
  lower_ok start_date r "date" ∧ upper_ok end_date r "date" ∧
  lower_ok min_revenue r "revenue" ∧ upper_ok max_revenue r "revenue" ∧
  lower_ok min_net_income r "netIncome" ∧ upper_ok max_net_income r "netIncome".

#[global] Instance Qle_decision (x y : Q) : Decision (x <= y)%Q.
Proof.
  destruct (Qlt_le_dec y x) as [H|H]; [right|left]; [|exact H].
  intros H'. exact (Qlt_not_le _ _ H H').
Defined.

#[global] Instance lower_ok_dec b r f : Decision (lower_ok b r f).
Proof. unfold lower_ok. apply _. Defined.
#[global] Instance upper_ok_dec b r f : Decision (upper_ok b r f).
Proof. unfold upper_ok. apply _. Defined.
#[global] Instance within_bounds_dec sd ed mr xr mn xn r :
  Decision (within_bounds sd ed mr xr mn xn r).
Proof. unfold within_bounds. apply _. Defined.

(** ** Auxiliary notions for the statements *)

(** The bound was supplied and is zero: [0] from [type=int], [0.0] from
    [type=float]. *)
Definition is_zero (b : pyval) : Prop :=
  b = VInt 0 ∨ ∃ q, b = VFloat q ∧ (q == 0)%Q.

(** [a] may stand in front of [b]: its key is not smaller. *)
Definition not_lt (a b : keyed) : Prop := py_lt a.1 b.1 = Ok false.

(** Every pair carries the key of its record. *)
Definition keys_of (field : string) (ks : list keyed) : Prop :=
  Forall (λ p, getitem p.2 field = Ok p.1) ks.

#[global] Instance Qeq_decision (x y : Q) : Decision (x == y)%Q := Qeq_dec x y.

(** The key of the pair is a number. *)
Definition numkey (p : keyed) : Prop := is_Some (num_of p.1).

(** Descending on the numbers the keys stand for. *)
Definition key_ge (a b : keyed) : Prop := (bnd b.1 <= bnd a.1)%Q.

(** The three keys the handler sorts by. *)
Definition sort_keys : list string := ["date"; "revenue"; "netIncome"].

(** The query parameters converted with [type=int] and with [type=float]. *)
Definition int_params : list string := ["startDate"; "endDate"].
Definition float_params : list string :=
  ["minRevenue"; "maxRevenue"; "minNetIncome"; "maxNetIncome"].

(** The value [v] given for the numeric parameter [k] does not convert. *)
Definition unparsable (parse_int : string → option Z)
    (parse_float : string → option Q) (k v : string) : Prop :=
  (k ∈ int_params ∧ parse_int v = None) ∨
  (k ∈ float_params ∧ parse_float v = None).

(** The response carries a client-error status. *)
Definition client_error (o : outcome) : Prop :=
  ∃ status b, o = Respond status b ∧ 400 <= status < 500.

(** ** Sample data *)

(** The two records of the end-to-end scenarios. *)
Definition r2023 : record :=
  {[ "date" := VInt 2023; "revenue" := VInt 100; "netIncome" := VInt 10 ]}.
Definition r2022 : record :=
  {[ "date" := VInt 2022; "revenue" := VInt 200; "netIncome" := VInt 20 ]}.

(** An instance of the conversions for the examples: plain decimal
    literals with an optional minus sign, everything else being rejected. *)
Definition digit (a : ascii) : option Z :=
  let n := Z.of_nat (nat_of_ascii a) in
  if (48 <=? n) && (n <=? 57) then Some (n - 48) else None.

Fixpoint digits (s : string) (acc : Z) : option Z :=
  match s with
  | EmptyString => Some acc
  | String a rest => d ← digit a; digits rest (10 * acc + d)
  end.

Definition dec_int (s : string) : option Z :=
  match s with
  | EmptyString => None
  | String "-"%char EmptyString => None
  | String "-"%char rest => Z.opp <$> digits rest 0
  | _ => digits s 0
  end.

Definition dec_float (s : string) : option Q := inject_Z <$> dec_int s.

(** A record without [revenue]. *)
Definition r_no_revenue : record :=
  {[ "date" := VInt 2023; "netIncome" := VInt 10 ]}.

(** A record without [date]. *)
Definition r_no_date : record :=
  {[ "revenue" := VInt 100; "netIncome" := VInt 10 ]}.

(** Tactics for facts about concrete records and bounds. *)
Ltac has_num_tac := eexists; split; [reflexivity|eexists; reflexivity].
Ltac absent_bound := intros Habsent; discriminate Habsent.
Ltac number_bound := intros _; eexists; reflexivity.

(** ** Notions for the further properties *)

(** The seven query parameters the handler reads. *)
Definition known_params : list string :=
  ["startDate"; "endDate"; "minRevenue"; "maxRevenue";
   "minNetIncome"; "maxNetIncome"; "sortBy"].

(** The value [v] given for the numeric parameter [k] converts to zero. *)
Definition parses_to_zero (parse_int : string → option Z)
    (parse_float : string → option Q) (k v : string) : Prop :=
  (k ∈ int_params ∧ parse_int v = Some 0) ∨
  (k ∈ float_params ∧ ∃ q, parse_float v = Some q ∧ (q == 0)%Q).

(** The field [f] of the record is present and holds a string, as the dates
    of the provider's own records do. *)
Definition has_str (r : record) (f : string) : Prop :=
  ∃ s, r !! f = Some (VStr s).

(** The string held by a string field (empty when there is none). *)
Definition sfld (r : record) (f : string) : string :=
  match r !! f with
  | Some (VStr s) => s
  | _ => ""
  end.

(** Records whose dates are strings. *)
Definition r_sep : record :=
  {[ "date" := VStr "2023-09-30"; "revenue" := VInt 100; "netIncome" := VInt 10 ]}.
Definition r_jun : record :=
  {[ "date" := VStr "2022-06-30"; "revenue" := VInt 200; "netIncome" := VInt 20 ]}.


(** Two bounds act alike when they are equal or both not enforced. *)
Definition same_bound (b b' : pyval) : Prop :=
  b = b' ∨ (truthy b = false ∧ truthy b' = false).

(** The key of the pair is a string. *)
Definition strkey (p : keyed) : Prop := ∃ s, p.1 = VStr s.

(** The string a key stands for (empty when it is not a string). *)
Definition skey (p : keyed) : string :=
  match p.1 with
  | VStr s => s
  | _ => ""
  end.

(** Descending in lexicographic order: [a] is not before [b]. *)
Definition str_ge (a b : string) : Prop := String.ltb a b = false.



(** ** The exception monad *)

Lemma bind_Ok {A B} (f : A → result B) (m : result A) (b : B) :
  m ≫= f = Ok b ↔ ∃ a, m = Ok a ∧ f a = Ok b.
Proof.
  destruct m as [a|e]; simpl.
  - split; [eauto|]. by intros (? & [= <-] & ?).
  - split; [done|]. by intros (? & ? & ?).
Qed.

Lemma Qltb_lt (x y : Q) : Qltb x y = true ↔ (x < y)%Q.
Proof.
  unfold Qltb. rewrite Qlt_alt. destruct (x ?= y)%Q; split; congruence.
Qed.

Lemma Qltb_ge (x y : Q) : Qltb x y = false ↔ (y <= x)%Q.
Proof.
  rewrite <- not_true_iff_false, Qltb_lt. split.
  - apply Qnot_lt_le.
  - intros H H'. exact (Qlt_not_le _ _ H' H).
Qed.

(** ** The loop of [filter_data] *)

Section filter_facts.
Variables sd ed mr xr mn xn : pyval.

Local Abbreviation loop := (filter_loop sd ed mr xr mn xn).
Local Abbreviation skip := (skipped sd ed mr xr mn xn).

(** The accumulator only ever grows at its end. *)
Lemma filter_loop_acc (data acc : list record) :
  loop data acc = (acc ++.) <$> loop data [].
Proof.
  revert acc. induction data as [|item rest IH]; intros acc; simpl.
  - by rewrite app_nil_r.
  - destruct (skip item) as [[]|e]; simpl; [apply IH| |done].
    rewrite (IH (acc ++ [item])), (IH [item]).
    destruct (loop rest []) as [out|e]; simpl; [|done].
    by rewrite <- app_assoc.
Qed.

(** One turn of the loop. *)
Lemma filter_data_cons (item : record) (rest : list record) :
  filter_data (item :: rest) sd ed mr xr mn xn =
    s ← skip item;
    out ← filter_data rest sd ed mr xr mn xn;
    Ok (if s : bool then out else item :: out).
Proof.
  unfold filter_data. simpl.
  destruct (skip item) as [[]|e]; simpl; [by destruct (loop rest [])| |done].
  rewrite filter_loop_acc. by destruct (loop rest []).
Qed.
End filter_facts.

(** ** One record against one bound *)

Lemma py_lt_num (a b : pyval) (x y : Q) :
  num_of a = Some x → num_of b = Some y → py_lt a b = Ok (Qltb x y).
Proof.
  intros Ha Hb. unfold py_lt. rewrite Ha, Hb. by destruct a.
Qed.

Lemma has_num_fld (r : record) (f : string) :
  has_num r f → ∃ v, r !! f = Some v ∧ num_of v = Some (fld r f).
Proof.
  intros (v & Hv & q & Hq). exists v. split; [done|].
  unfold fld. rewrite Hv. simpl. by rewrite Hq.
Qed.

Lemma bound_wf_bnd (b : pyval) :
  bound_wf b → truthy b = true → num_of b = Some (bnd b).
Proof. intros Hwf Ht. destruct (Hwf Ht) as [q Hq]. unfold bnd. by rewrite Hq. Qed.

Lemma bound_hit_lower (b : pyval) (r : record) (f : string) :
  bound_wf b → has_num r f →
  bound_hit b r f py_lt = Ok (negb (bool_decide (lower_ok b r f))).
Proof.
  intros Hb (v & Hv & Hq)%has_num_fld. unfold bound_hit.
  destruct (truthy b) eqn:Ht.
  - unfold getitem. rewrite Hv. simpl.
    rewrite (py_lt_num _ _ _ _ Hq (bound_wf_bnd _ Hb Ht)). f_equal.
    destruct (Qltb (fld r f) (bnd b)) eqn:Hlt; simpl; symmetry.
    + apply negb_true_iff, bool_decide_eq_false. intros H.
      apply Qltb_lt in Hlt. exact (Qlt_not_le _ _ Hlt (H Ht)).
    + apply negb_false_iff, bool_decide_eq_true. intros _. by apply Qltb_ge.
  - symmetry. simpl. f_equal. apply negb_false_iff, bool_decide_eq_true.
    intros Ht'. congruence.
Qed.

Lemma bound_hit_upper (b : pyval) (r : record) (f : string) :
  bound_wf b → has_num r f →
  bound_hit b r f py_gt = Ok (negb (bool_decide (upper_ok b r f))).
Proof.
  intros Hb (v & Hv & Hq)%has_num_fld. unfold bound_hit, py_gt.
  destruct (truthy b) eqn:Ht.
  - unfold getitem. rewrite Hv. simpl.
    rewrite (py_lt_num _ _ _ _ (bound_wf_bnd _ Hb Ht) Hq). f_equal.
    destruct (Qltb (bnd b) (fld r f)) eqn:Hlt; simpl; symmetry.
    + apply negb_true_iff, bool_decide_eq_false. intros H.
      apply Qltb_lt in Hlt. exact (Qlt_not_le _ _ Hlt (H Ht)).
    + apply negb_false_iff, bool_decide_eq_true. intros _. by apply Qltb_ge.
  - symmetry. simpl. f_equal. apply negb_false_iff, bool_decide_eq_true.
    intros Ht'. congruence.
Qed.

Section filter_wf.
Variables sd ed mr xr mn xn : pyval.
Hypothesis Hsd : bound_wf sd.
Hypothesis Hed : bound_wf ed.
Hypothesis Hmr : bound_wf mr.
Hypothesis Hxr : bound_wf xr.
Hypothesis Hmn : bound_wf mn.
Hypothesis Hxn : bound_wf xn.

(** On a well-formed record no check raises, and a [continue] fires
    exactly when the record is outside some enforced bound. *)
Lemma skipped_wf (r : record) :
  well_formed r →
  skipped sd ed mr xr mn xn r =
    Ok (negb (bool_decide (within_bounds sd ed mr xr mn xn r))).
Proof.
  intros (Hd & Hr & Hn). unfold skipped.
  rewrite !bound_hit_lower, !bound_hit_upper by done.
  repeat case_bool_decide; simpl; try done;
    unfold within_bounds in *; tauto.
Qed.

Lemma filter_data_wf (data : list record) :
  Forall well_formed data →
  filter_data data sd ed mr xr mn xn =
    Ok (filter (within_bounds sd ed mr xr mn xn) data).
Proof.
  induction 1 as [|r data Hr _ IH]; [done|].
  rewrite filter_data_cons, skipped_wf, IH by done. simpl.
  rewrite filter_cons. by case_bool_decide; case_decide.
Qed.
End filter_wf.

(** ** Bounds that are not enforced *)

Lemma is_zero_falsy (b : pyval) : is_zero b → truthy b = false.
Proof.
  intros [->|(q & -> & Hq)]; [done|]. simpl.
  apply negb_false_iff. by apply Qeq_bool_iff.
Qed.

Lemma bound_hit_falsy (b : pyval) (r : record) (f : string) cmp :
  truthy b = false → bound_hit b r f cmp = bound_hit VNone r f cmp.
Proof. unfold bound_hit. by intros ->. Qed.

(** The loop depends on the bounds only through [skipped]. *)
Lemma filter_loop_ext sd ed mr xr mn xn sd' ed' mr' xr' mn' xn' :
  (∀ r, skipped sd ed mr xr mn xn r = skipped sd' ed' mr' xr' mn' xn' r) →
  ∀ data acc,
    filter_loop sd ed mr xr mn xn data acc =
    filter_loop sd' ed' mr' xr' mn' xn' data acc.
Proof.
  intros Hs data. induction data as [|item rest IH]; intros acc; [done|].
  simpl. rewrite Hs. destruct (skipped _ _ _ _ _ _ item) as [[]|]; simpl; auto.
Qed.


(** ** Claims about [filter_data] *)


(** C3. A bound set to zero, in any of the six positions and whatever the
    other five bounds and the records are, gives the result (the same list
    or the same exception) that an absent bound gives. *)
Theorem filter_data_zero_bound_as_absent
    (data : list record) (zero sd ed mr xr mn xn : pyval) :
  is_zero zero →
  filter_data data zero ed mr xr mn xn = filter_data data VNone ed mr xr mn xn ∧
  filter_data data sd zero mr xr mn xn = filter_data data sd VNone mr xr mn xn ∧
  filter_data data sd ed zero xr mn xn = filter_data data sd ed VNone xr mn xn ∧
  filter_data data sd ed mr zero mn xn = filter_data data sd ed mr VNone mn xn ∧
  filter_data data sd ed mr xr zero xn = filter_data data sd ed mr xr VNone xn ∧
  filter_data data sd ed mr xr mn zero = filter_data data sd ed mr xr mn VNone.
Proof.
  intros Hz%is_zero_falsy. unfold filter_data.
  repeat split; apply filter_loop_ext; intros r; unfold skipped;
    by rewrite (bound_hit_falsy zero) by done.
Qed.

(** ** The stable descending sort *)

Lemma Qltb_asym (x y : Q) : Qltb x y = true → Qltb y x = false.
Proof. rewrite Qltb_lt, Qltb_ge. apply Qlt_le_weak. Qed.

Lemma string_ltb_asym (s t : string) :
  String.ltb s t = true → String.ltb t s = false.
Proof.
  unfold String.ltb. rewrite (String.compare_antisym s t).
  by destruct (String.compare t s).
Qed.

(** [<] never holds both ways. *)
Lemma py_lt_asym (a b : pyval) : py_lt a b = Ok true → py_lt b a = Ok false.
Proof.
  destruct a, b; simpl; try done; intros [= H]; f_equal;
    (by apply Qltb_asym) || (by apply string_ltb_asym).
Qed.

Lemma decorate_Ok (field : string) (l : list record) (ks : list keyed) :
  decorate field l = Ok ks → ks.*2 = l ∧ keys_of field ks.
Proof.
  revert ks. induction l as [|x rest IH]; intros ks; simpl.
  - intros [= <-]. split; [done|constructor].
  - intros (k & Hk & (ks' & Hks & [= <-])%bind_Ok)%bind_Ok.
    destruct (IH _ Hks) as [<- Hkeys]. split; [done|]. by constructor.
Qed.

Lemma decorate_keys_of (field : string) (ks : list keyed) :
  keys_of field ks → decorate field (ks.*2) = Ok ks.
Proof.
  induction 1 as [|[k x] ks Hk _ IH]; [done|].
  rewrite fmap_cons. cbn [decorate snd] in *. by rewrite Hk, IH.
Qed.

Lemma insert_desc_perm (x : keyed) (l l' : list keyed) :
  insert_desc x l = Ok l' → l' ≡ₚ x :: l.
Proof.
  revert l'. induction l as [|y rest IH]; intros l'; simpl.
  - by intros [= <-].
  - intros ([] & _ & Hc)%bind_Ok.
    + apply bind_Ok in Hc as (r & Hr & [= <-]).
      rewrite (IH _ Hr). apply Permutation_swap.
    + by injection Hc as <-.
Qed.

Lemma sort_keyed_perm (l s : list keyed) : sort_keyed l = Ok s → s ≡ₚ l.
Proof.
  revert s. induction l as [|x rest IH]; intros s; simpl.
  - by intros [= <-].
  - intros (s0 & Hs0 & Hs)%bind_Ok.
    rewrite (insert_desc_perm _ _ _ Hs). by rewrite (IH _ Hs0).
Qed.

Lemma insert_desc_HdRel (R : relation keyed) (x y : keyed) (l l' : list keyed) :
  insert_desc x l = Ok l' → HdRel R y l → R y x → HdRel R y l'.
Proof.
  destruct l as [|z rest]; simpl.
  - intros [= <-] _ ?. by constructor.
  - intros ([] & _ & Hc)%bind_Ok Hhd Hyx.
    + apply bind_Ok in Hc as (r & _ & [= <-]).
      constructor. by apply HdRel_inv in Hhd.
    + injection Hc as <-. by constructor.
Qed.

Lemma insert_desc_Sorted (x : keyed) (l l' : list keyed) :
  insert_desc x l = Ok l' → Sorted not_lt l → Sorted not_lt l'.
Proof.
  revert l'. induction l as [|y rest IH]; intros l'; simpl.
  - intros [= <-] _. by repeat constructor.
  - intros ([] & Hlt & Hc)%bind_Ok [Hrest Hhd]%Sorted_inv.
    + apply bind_Ok in Hc as (r & Hr & [= <-]).
      constructor; [by apply IH|].
      eapply insert_desc_HdRel; [done..|]. by apply py_lt_asym.
    + injection Hc as <-. constructor; [by constructor|by constructor].
Qed.

Lemma sort_keyed_Sorted (l s : list keyed) :
  sort_keyed l = Ok s → Sorted not_lt s.
Proof.
  revert s. induction l as [|x rest IH]; intros s; simpl.
  - intros [= <-]. constructor.
  - intros (s0 & Hs0 & Hs)%bind_Ok. eauto using insert_desc_Sorted.
Qed.

(** A list that is already in order is returned as it is. *)
Lemma sort_keyed_fixed (l : list keyed) :
  Sorted not_lt l → sort_keyed l = Ok l.
Proof.
  induction 1 as [|x l _ IH Hhd]; [done|].
  simpl. rewrite IH. simpl. destruct Hhd as [|y l Hxy]; [done|].
  simpl. unfold not_lt in Hxy. by rewrite Hxy.
Qed.

(** Stability: a class [P] of elements none of which is smaller than
    another keeps its internal order. *)
Lemma insert_desc_filter (P : keyed → Prop) `{!∀ p, Decision (P p)}
    (x : keyed) (l l' : list keyed) :
  insert_desc x l = Ok l' →
  (∀ y, y ∈ l → P x → P y → py_lt x.1 y.1 ≠ Ok true) →
  filter P l' = filter P (x :: l).
Proof.
  revert l'. induction l as [|y rest IH]; intros l'; simpl.
  - by intros [= <-].
  - intros ([] & Hlt & Hc)%bind_Ok HP; [|by injection Hc as <-].
    apply bind_Ok in Hc as (r & Hr & [= <-]).
    assert (Hxy : ¬ (P x ∧ P y)).
    { intros [Hx Hy]. by apply (HP y); [left|..]. }
    rewrite (filter_cons _ y r), (IH _ Hr), !filter_cons.
    + repeat case_decide; tauto || done.
    + intros z Hz. apply HP. by right.
Qed.

Lemma sort_keyed_filter (P : keyed → Prop) `{!∀ p, Decision (P p)}
    (l s : list keyed) :
  sort_keyed l = Ok s →
  (∀ a b, a ∈ l → b ∈ l → P a → P b → py_lt a.1 b.1 ≠ Ok true) →
  filter P s = filter P l.
Proof.
  revert s. induction l as [|x rest IH]; intros s; simpl.
  - by intros [= <-].
  - intros (s0 & Hs0 & Hs)%bind_Ok HP.
    rewrite (insert_desc_filter P _ _ _ Hs).
    + rewrite !filter_cons, (IH _ Hs0); [done|].
      intros a b Ha Hb. apply HP; by right.
    + intros y Hy. apply HP; [by left|].
      right. by rewrite <- (sort_keyed_perm _ _ Hs0).
Qed.

(** ** Sorting numeric keys *)

Lemma py_lt_numkey (a b : keyed) :
  numkey a → numkey b → py_lt a.1 b.1 = Ok (Qltb (bnd a.1) (bnd b.1)).
Proof.
  intros [x Hx] [y Hy]. unfold bnd. rewrite Hx, Hy. simpl.
  by apply py_lt_num.
Qed.

Lemma insert_desc_num (x : keyed) (l : list keyed) :
  numkey x → Forall numkey l → ∃ l', insert_desc x l = Ok l'.
Proof.
  intros Hx. induction 1 as [|y rest Hy _ [r Hr]]; simpl; [eauto|].
  rewrite (py_lt_numkey _ _ Hx Hy). simpl.
  destruct (Qltb _ _); [|eauto]. rewrite Hr. simpl. eauto.
Qed.

Lemma sort_keyed_num (l : list keyed) :
  Forall numkey l → ∃ s, sort_keyed l = Ok s.
Proof.
  induction 1 as [|x rest Hx Hrest [s0 Hs0]]; simpl; [eauto|].
  rewrite Hs0. simpl. apply insert_desc_num; [done|].
  by rewrite (sort_keyed_perm _ _ Hs0).
Qed.

Lemma insert_desc_StronglySorted (x : keyed) (l l' : list keyed) :
  numkey x → Forall numkey l →
  insert_desc x l = Ok l' →
  StronglySorted key_ge l → StronglySorted key_ge l'.
Proof.
  intros Hx Hl. revert l'.
  induction Hl as [|y rest Hy Hrest IH]; intros l'; simpl.
  - intros [= <-] _. by repeat constructor.
  - rewrite (py_lt_numkey _ _ Hx Hy). simpl.
    intros Hins [Hall Hsorted]%StronglySorted_cons.
    destruct (Qltb _ _) eqn:Hlt.
    + apply bind_Ok in Hins as (r & Hr & [= <-]).
      apply StronglySorted_cons. split; [|by apply IH].
      rewrite (insert_desc_perm _ _ _ Hr). constructor; [|done].
      apply Qlt_le_weak. by apply Qltb_lt.
    + injection Hins as <-. apply Qltb_ge in Hlt.
      apply StronglySorted_cons. split; [|by apply StronglySorted_cons].
      constructor; [done|]. eapply Forall_impl; [exact Hall|].
      intros z Hz. unfold key_ge in *. by eapply Qle_trans.
Qed.

Lemma sort_keyed_StronglySorted (l s : list keyed) :
  Forall numkey l → sort_keyed l = Ok s → StronglySorted key_ge s.
Proof.
  intros Hl. revert s. induction Hl as [|x rest Hx Hrest IH]; intros s; simpl.
  - intros [= <-]. constructor.
  - intros (s0 & Hs0 & Hs)%bind_Ok.
    eapply insert_desc_StronglySorted; [done| |done|by apply IH].
    by rewrite (sort_keyed_perm _ _ Hs0).
Qed.

Lemma keys_of_fld (field : string) (p : keyed) :
  getitem p.2 field = Ok p.1 → fld p.2 field = bnd p.1.
Proof.
  unfold getitem, fld, bnd. destruct (p.2 !! field); [|done]. by intros [= ->].
Qed.

Lemma decorate_has_num (field : string) (l : list record) :
  Forall (λ r, has_num r field) l →
  ∃ ks, decorate field l = Ok ks ∧ Forall numkey ks.
Proof.
  induction 1 as [|r rest (v & Hv & Hq) _ (ks & Hks & Hnum)]; simpl.
  - eexists. split; [done|constructor].
  - unfold getitem. rewrite Hv. simpl. rewrite Hks. simpl.
    eexists. split; [done|]. by constructor.
Qed.

Lemma filter_fmap {A B} (g : A → B) (P : B → Prop) `{!∀ b, Decision (P b)}
    (l : list A) :
  filter P (g <$> l) = g <$> filter (P ∘ g) l.
Proof.
  induction l as [|a l IH]; [done|].
  rewrite fmap_cons, !filter_cons, IH. simpl. by case_decide.
Qed.


(** What [sorted(l, key=lambda x: x[field], reverse=True)] returns when
    every record holds a number in [field]. *)
Lemma sorted_desc_num (field : string) (l : list record) :
  Forall (λ r, has_num r field) l →
  ∃ out,
    sorted_desc field l = Ok out ∧
    out ≡ₚ l ∧
    StronglySorted (λ a b, (fld b field <= fld a field)%Q) out ∧
    (∀ q, filter (λ r, (fld r field == q)%Q) out =
          filter (λ r, (fld r field == q)%Q) l).
Proof.
  intros (ks & Hks & Hnum)%decorate_has_num.
  destruct (sort_keyed_num _ Hnum) as [s Hs].
  destruct (decorate_Ok _ _ _ Hks) as [<- Hkeys].
  pose proof (sort_keyed_perm _ _ Hs) as Hperm.
  assert (Hkeys' : keys_of field s) by (unfold keys_of; by rewrite Hperm).
  exists (s.*2). unfold sorted_desc. rewrite Hks. simpl. rewrite Hs. simpl.
  split; [done|]. split; [by rewrite Hperm|]. split.
  - pose proof (sort_keyed_StronglySorted _ _ Hnum Hs) as Hsorted.
    clear -Hsorted Hkeys'. induction Hsorted as [|p s Hs IH Hall]; [constructor|].
    apply Forall_cons in Hkeys' as [Hp Hkeys'].
    rewrite fmap_cons. constructor; [by apply IH|].
    rewrite Forall_fmap. rewrite Forall_forall in Hall, Hkeys'.
    apply Forall_forall. intros p' Hp'. simpl.
    rewrite (keys_of_fld _ _ Hp), (keys_of_fld _ _ (Hkeys' _ Hp')).
    by apply Hall.
  - intros q. rewrite !filter_fmap. f_equal.
    apply (sort_keyed_filter _ _ _ Hs).
    intros a b Ha Hb Hqa Hqb. simpl in Hqa, Hqb.
    rewrite Forall_forall in Hnum. unfold keys_of in Hkeys.
    rewrite Forall_forall in Hkeys.
    rewrite py_lt_numkey by auto. intros [= Hlt%Qltb_lt].
    rewrite <- (keys_of_fld field a), <- (keys_of_fld field b) in Hlt by auto.
    apply Qlt_not_eq in Hlt. apply Hlt. by rewrite Hqa, Hqb.
Qed.

(** ** The sort stage and the handler *)

Lemma sort_stage_key (sort_by : string) (l : list record) :
  sort_by ∈ sort_keys → sort_stage sort_by l = sorted_desc sort_by l.
Proof.
  unfold sort_keys. rewrite !elem_of_cons, elem_of_nil.
  intros [->|[->|[->|[]]]]; reflexivity.
Qed.

Lemma sort_stage_other (sort_by : string) (l : list record) :
  sort_by ∉ sort_keys → sort_stage sort_by l = Ok l.
Proof.
  unfold sort_keys. rewrite !elem_of_cons, elem_of_nil. intros Hk.
  unfold sort_stage.
  destruct (String.eqb_spec sort_by "date"); [tauto|].
  destruct (String.eqb_spec sort_by "revenue"); [tauto|].
  destruct (String.eqb_spec sort_by "netIncome"); [tauto|]. done.
Qed.

Lemma sorted_desc_perm (field : string) (l out : list record) :
  sorted_desc field l = Ok out → out ≡ₚ l.
Proof.
  unfold sorted_desc.
  intros (ks & Hks & (s & Hs & [= <-])%bind_Ok)%bind_Ok.
  destruct (decorate_Ok _ _ _ Hks) as [<- _].
  by rewrite (sort_keyed_perm _ _ Hs).
Qed.

Lemma sort_stage_perm (sort_by : string) (l out : list record) :
  sort_stage sort_by l = Ok out → out ≡ₚ l.
Proof.
  destruct (decide (sort_by ∈ sort_keys)) as [Hk|Hk].
  - rewrite (sort_stage_key _ _ Hk). apply sorted_desc_perm.
  - rewrite (sort_stage_other _ _ Hk). by intros [= <-].
Qed.

(** The response to a request whose upstream call succeeded. *)
Lemma fetch_data_Fetched parse_int parse_float
    (data fl out : list record) (args : gmap string string) :
  filter_data data
    (args_get_int parse_int args "startDate")
    (args_get_int parse_int args "endDate")
    (args_get_float parse_float args "minRevenue")
    (args_get_float parse_float args "maxRevenue")
    (args_get_float parse_float args "minNetIncome")
    (args_get_float parse_float args "maxNetIncome") = Ok fl →
  sort_stage (args_get_str args "sortBy" "date") fl = Ok out →
  fetch_data parse_int parse_float (Fetched data) args =
    Respond 200 (JsonArray out).
Proof. intros Hfl Hout. unfold fetch_data. by rewrite Hfl, Hout. Qed.

(** ** Claims about the sort *)


(** [filter_data] only drops records: what it returns is a subsequence of
    [data], in the order of [data]. *)
Lemma filter_data_sublist (data out : list record) sd ed mr xr mn xn :
  filter_data data sd ed mr xr mn xn = Ok out → out `sublist_of` data.
Proof.
  revert out. induction data as [|item rest IH]; intros out.
  - intros [= <-]. constructor.
  - rewrite filter_data_cons.
    intros (s & _ & (out' & Hout' & [= <-])%bind_Ok)%bind_Ok.
    destruct s; [apply sublist_cons|apply sublist_skip]; by apply IH.
Qed.

(** C7. When [sortBy] is none of [date], [revenue], [netIncome], the sort
    stage returns the filtered list as it is, the handler answers with that
    list, and the list is a subsequence of the upstream data in upstream
    order. *)
Theorem unrecognised_sort_key_keeps_filtered_order
    (sort_by : string) (filtered : list record) :
  sort_by ≠ "date" → sort_by ≠ "revenue" → sort_by ≠ "netIncome" →
  sort_stage sort_by filtered = Ok filtered ∧
  (∀ parse_int parse_float data args,
     filter_data data
       (args_get_int parse_int args "startDate")
       (args_get_int parse_int args "endDate")
       (args_get_float parse_float args "minRevenue")
       (args_get_float parse_float args "maxRevenue")
       (args_get_float parse_float args "minNetIncome")
       (args_get_float parse_float args "maxNetIncome") = Ok filtered →
     args !! "sortBy" = Some sort_by →
     fetch_data parse_int parse_float (Fetched data) args =
       Respond 200 (JsonArray filtered) ∧
     filtered `sublist_of` data).
Proof.
  intros Hd Hr Hn.
  assert (Hk : sort_by ∉ sort_keys).
  { unfold sort_keys. rewrite !elem_of_cons, elem_of_nil. tauto. }
  split; [by apply sort_stage_other|].
  intros pi pf data args Hfl Hsort. split.
  - eapply fetch_data_Fetched; [done|].
    unfold args_get_str. rewrite Hsort. by apply sort_stage_other.
  - by eapply filter_data_sublist.
Qed.

(** ** Claims about the handler *)

(** C8. Without a [sortBy] parameter the handler answers as it does to the
    same request with [sortBy=date]: when the filtered records hold numeric
    dates, with those records in descending order of date, ties in filtered
    order.  For the upstream records of 2023 and 2022 and no query
    parameters the answer is the 2023 record followed by the 2022 record,
    in whichever order the upstream sent them. *)
Theorem absent_sort_key_sorts_by_date
    (parse_int : string → option Z) (parse_float : string → option Q) :
  (∀ up args,
     args !! "sortBy" = None →
     fetch_data parse_int parse_float up args =
       fetch_data parse_int parse_float up (<["sortBy" := "date"]> args)) ∧
  (∀ data args filtered,
     args !! "sortBy" = None →
     filter_data data
       (args_get_int parse_int args "startDate")
       (args_get_int parse_int args "endDate")
       (args_get_float parse_float args "minRevenue")
       (args_get_float parse_float args "maxRevenue")
       (args_get_float parse_float args "minNetIncome")
       (args_get_float parse_float args "maxNetIncome") = Ok filtered →
     Forall (λ r, has_num r "date") filtered →
     ∃ out,
       fetch_data parse_int parse_float (Fetched data) args =
         Respond 200 (JsonArray out) ∧
       out ≡ₚ filtered ∧
       StronglySorted (λ a b, (fld b "date" <= fld a "date")%Q) out ∧
       (∀ q, filter (λ r, (fld r "date" == q)%Q) out =
             filter (λ r, (fld r "date" == q)%Q) filtered)) ∧
  fetch_data parse_int parse_float (Fetched [r2023; r2022]) ∅ =
    Respond 200 (JsonArray [r2023; r2022]) ∧
  fetch_data parse_int parse_float (Fetched [r2022; r2023]) ∅ =
    Respond 200 (JsonArray [r2023; r2022]).
Proof.
  split; [|split; [|split]].
  - intros [data|e] args Hs; [|done]. unfold fetch_data.
    unfold args_get_int, args_get_float, args_get_str.
    rewrite Hs, lookup_insert_eq.
    by rewrite !lookup_insert_ne by done.
  - intros data args filtered Hs Hfl Hnum.
    destruct (sorted_desc_num _ _ Hnum) as (out & Hout & Hperm & Hsorted & Hst).
    exists out. split; [|done].
    eapply fetch_data_Fetched; [done|].
    unfold args_get_str. by rewrite Hs.
  - reflexivity.
  - reflexivity.
Qed.


(** The handler only ever answers 200 or 500. *)
Lemma fetch_data_status parse_int parse_float up args status b :
  fetch_data parse_int parse_float up args = Respond status b →
  status = 200 ∨ status = 500.
Proof.
  unfold fetch_data. destruct up as [data|e]; [|intros [= <- _]; by right].
  destruct (filter_data _ _ _ _ _ _ _) as [fl|]; [|done].
  destruct (sort_stage _ _); [|done]. intros [= <- _]. by left.
Qed.

(** C5, as the code has it.  A request with a malformed numeric parameter
    is answered with status 200 and the unfiltered records, not with a
    client error. *)
Lemma malformed_start_date_accepted :
  dec_int "abc" = None ∧
  fetch_data dec_int dec_float (Fetched [r2023; r2022])
    {[ "startDate" := "abc" ]} = Respond 200 (JsonArray [r2023; r2022]) ∧
  ¬ client_error
      (fetch_data dec_int dec_float (Fetched [r2023; r2022])
         {[ "startDate" := "abc" ]}).
Proof.
  split; [reflexivity|]. split; [reflexivity|].
  intros (status & b & Heq & Hrange).
  apply fetch_data_status in Heq. lia.
Qed.

(** C5, amended.  A numeric query parameter whose value does not convert is
    treated as if it had not been given: the handler answers exactly as it
    does to the request without that parameter, and never with a 4xx
    status. *)
Theorem malformed_param_treated_as_absent
    (parse_int : string → option Z) (parse_float : string → option Q)
    (up : upstream) (args : gmap string string) (k v : string) :
  args !! k = Some v →
  unparsable parse_int parse_float k v →
  fetch_data parse_int parse_float up args =
    fetch_data parse_int parse_float up (delete k args) ∧
  ¬ client_error (fetch_data parse_int parse_float up args).
Proof.
  intros Hv Hbad. split.
  - destruct up as [data|e]; [|done].
    unfold fetch_data, args_get_int, args_get_float, args_get_str.
    unfold unparsable, int_params, float_params in Hbad.
    rewrite !elem_of_cons, !elem_of_nil in Hbad.
    destruct Hbad as [[Hk Hp]|[Hk Hp]];
      repeat (destruct Hk as [->|Hk]); try done;
      rewrite Hv, Hp, lookup_delete_eq, !lookup_delete_ne by done; done.
  - intros (status & b & Heq & Hrange).
    apply fetch_data_status in Heq. lia.
Qed.

(** ** Records that lack a field *)

Lemma skipped_raises_filter_data (data : list record) (r : record)
    sd ed mr xr mn xn :
  r ∈ data → raises (skipped sd ed mr xr mn xn r) →
  raises (filter_data data sd ed mr xr mn xn).
Proof.
  intros Hin [e He]. induction Hin as [r rest|r r' rest _ IH];
    rewrite filter_data_cons.
  - rewrite He. by eexists.
  - destruct (skipped _ _ _ _ _ _ r') as [s|e']; [|by eexists].
    destruct (IH He) as [e' ->]. by eexists.
Qed.

Lemma bound_hit_missing (b : pyval) (r : record) (f : string) cmp :
  truthy b = true → r !! f = None →
  bound_hit b r f cmp = Raise (KeyError f).
Proof. intros Ht Hf. unfold bound_hit, getitem. by rewrite Ht, Hf. Qed.

Lemma bound_hit_absent (b : pyval) (r : record) (f : string) cmp :
  truthy b = false → bound_hit b r f cmp = Ok false.
Proof. intros Ht. unfold bound_hit. by rewrite Ht. Qed.

Lemma decorate_missing (field : string) (l : list record) (r : record) :
  r ∈ l → r !! field = None → decorate field l = Raise (KeyError field).
Proof.
  intros Hin Hf. induction Hin as [r rest|r r' rest _ IH]; simpl.
  - unfold getitem. by rewrite Hf.
  - unfold getitem. destruct (r' !! field) eqn:Hr'.
    + simpl. by rewrite (IH Hf).
    + done.
Qed.

(** With no enforced bound the loop reads no field. *)
Lemma filter_data_no_bounds (data : list record) sd ed mr xr mn xn :
  truthy sd = false → truthy ed = false → truthy mr = false →
  truthy xr = false → truthy mn = false → truthy xn = false →
  filter_data data sd ed mr xr mn xn = Ok data.
Proof.
  intros Hsd Hed Hmr Hxr Hmn Hxn.
  induction data as [|item rest IH]; [done|].
  rewrite filter_data_cons, IH. unfold skipped.
  by rewrite !bound_hit_absent by done.
Qed.

(** C6, as the code has it.  A record without [revenue] passes through the
    filter and the sort when no revenue bound is enforced and the sort key
    is another field: nothing raises and the handler answers 200. *)
Lemma missing_field_not_read_no_failure :
  r_no_revenue !! "revenue" = None ∧
  filter_data [r_no_revenue] VNone VNone VNone VNone VNone VNone
    = Ok [r_no_revenue] ∧
  sort_stage "date" [r_no_revenue] = Ok [r_no_revenue] ∧
  ¬ raises (transform [r_no_revenue] VNone VNone VNone VNone VNone VNone "date") ∧
  fetch_data dec_int dec_float (Fetched [r_no_revenue]) ∅
    = Respond 200 (JsonArray [r_no_revenue]).
Proof.
  split; [reflexivity|]. split; [reflexivity|]. split; [reflexivity|].
  split; [|reflexivity]. intros [e He]. vm_compute in He. discriminate.
Qed.

(** C6, amended.  A missing field makes the transform fail where the field
    is read.  [filter_data] raises when some record lacks the field of a
    bound that is present and non-zero and the checks placed before it let
    the record through (the [date] checks come first, so for [date] this is
    always the case); the sort raises [KeyError] when a record of the
    filtered list lacks the field named by the sort key.  With every bound
    absent or zero [filter_data] reads no field and returns the list as it
    is, whatever the records lack. *)
Theorem missing_field_fails_where_read
    (data : list record) (sd ed mr xr mn xn : pyval) :
  (∀ r, r ∈ data → r !! "date" = None →
     truthy sd = true ∨ truthy ed = true →
     raises (filter_data data sd ed mr xr mn xn)) ∧
  (∀ r, r ∈ data → r !! "revenue" = None →
     truthy mr = true ∨ truthy xr = true →
     bound_hit sd r "date" py_lt = Ok false →
     bound_hit ed r "date" py_gt = Ok false →
     raises (filter_data data sd ed mr xr mn xn)) ∧
  (∀ r, r ∈ data → r !! "netIncome" = None →
     truthy mn = true ∨ truthy xn = true →
     bound_hit sd r "date" py_lt = Ok false →
     bound_hit ed r "date" py_gt = Ok false →
     bound_hit mr r "revenue" py_lt = Ok false →
     bound_hit xr r "revenue" py_gt = Ok false →
     raises (filter_data data sd ed mr xr mn xn)) ∧
  (∀ sort_by r, sort_by ∈ sort_keys → r ∈ data → r !! sort_by = None →
     sort_stage sort_by data = Raise (KeyError sort_by)) ∧
  (truthy sd = false → truthy ed = false → truthy mr = false →
   truthy xr = false → truthy mn = false → truthy xn = false →
   filter_data data sd ed mr xr mn xn = Ok data).
Proof.
  split; [|split; [|split; [|split]]].
  - intros r Hin Hf Ht. apply (skipped_raises_filter_data _ r); [done|].
    exists (KeyError "date"). unfold skipped.
    destruct (truthy sd) eqn:Hsd.
    + by rewrite (bound_hit_missing sd) by done.
    + destruct Ht as [?|Hed]; [done|].
      by rewrite (bound_hit_absent sd), (bound_hit_missing ed) by done.
  - intros r Hin Hf Ht H1 H2. apply (skipped_raises_filter_data _ r); [done|].
    exists (KeyError "revenue"). unfold skipped. rewrite H1, H2. simpl.
    destruct (truthy mr) eqn:Hmr.
    + by rewrite (bound_hit_missing mr) by done.
    + destruct Ht as [?|Hxr]; [done|].
      by rewrite (bound_hit_absent mr), (bound_hit_missing xr) by done.
  - intros r Hin Hf Ht H1 H2 H3 H4.
    apply (skipped_raises_filter_data _ r); [done|].
    exists (KeyError "netIncome"). unfold skipped. rewrite H1, H2, H3, H4. simpl.
    destruct (truthy mn) eqn:Hmn.
    + by rewrite (bound_hit_missing mn) by done.
    + destruct Ht as [?|Hxn]; [done|].
      by rewrite (bound_hit_absent mn), (bound_hit_missing xn) by done.
  - intros sort_by r Hk Hin Hf. rewrite sort_stage_key by done.
    unfold sorted_desc. by rewrite (decorate_missing _ _ _ Hin Hf).
  - apply filter_data_no_bounds.
Qed.

(** ** Applying the transform to its own output *)

Section idempotence.
Variables sd ed mr xr mn xn : pyval.

(** Every record [filter_data] returns went through the six checks
    without raising and without being skipped. *)
Lemma filter_data_Ok_kept (data out : list record) :
  filter_data data sd ed mr xr mn xn = Ok out →
  Forall (λ r, skipped sd ed mr xr mn xn r = Ok false) out.
Proof.
  revert out. induction data as [|item rest IH]; intros out.
  - intros [= <-]. constructor.
  - rewrite filter_data_cons.
    intros (s & Hs & (out' & Hout' & [= <-])%bind_Ok)%bind_Ok.
    destruct s; [by apply IH|]. constructor; [done|by apply IH].
Qed.

Lemma filter_data_all_kept (l : list record) :
  Forall (λ r, skipped sd ed mr xr mn xn r = Ok false) l →
  filter_data l sd ed mr xr mn xn = Ok l.
Proof.
  induction 1 as [|r l Hr _ IH]; [done|].
  by rewrite filter_data_cons, Hr, IH.
Qed.

Lemma filter_data_fixed (data out : list record) :
  filter_data data sd ed mr xr mn xn = Ok out →
  filter_data out sd ed mr xr mn xn = Ok out.
Proof. intros H. by eapply filter_data_all_kept, filter_data_Ok_kept. Qed.
End idempotence.

Lemma sorted_desc_fixed (field : string) (l out : list record) :
  sorted_desc field l = Ok out → sorted_desc field out = Ok out.
Proof.
  unfold sorted_desc.
  intros (ks & Hks & (s & Hs & [= <-])%bind_Ok)%bind_Ok.
  destruct (decorate_Ok _ _ _ Hks) as [_ Hkeys].
  assert (Hkeys' : keys_of field s).
  { unfold keys_of. by rewrite (sort_keyed_perm _ _ Hs). }
  rewrite (decorate_keys_of _ _ Hkeys'). simpl.
  by rewrite (sort_keyed_fixed _ (sort_keyed_Sorted _ _ Hs)).
Qed.

Lemma sort_stage_fixed (sort_by : string) (l out : list record) :
  sort_stage sort_by l = Ok out → sort_stage sort_by out = Ok out.
Proof.
  destruct (decide (sort_by ∈ sort_keys)) as [Hk|Hk].
  - rewrite !sort_stage_key by done. apply sorted_desc_fixed.
  - by rewrite !sort_stage_other by done.
Qed.

(** C9. Filtering, sorting and the two combined are idempotent: whenever
    [filter_data], the sort stage or the whole transform returns a list,
    applying it again to that list, with the same bounds and the same sort
    key, returns the same list.  This holds for every list of records,
    every bounds and every sort key, recognised or not. *)
Theorem transform_idempotent
    (data : list record) (sd ed mr xr mn xn : pyval) (sort_by : string) :
  (∀ out, transform data sd ed mr xr mn xn sort_by = Ok out →
          transform out sd ed mr xr mn xn sort_by = Ok out) ∧
  (∀ out, filter_data data sd ed mr xr mn xn = Ok out →
          filter_data out sd ed mr xr mn xn = Ok out) ∧
  (∀ out, sort_stage sort_by data = Ok out →
          sort_stage sort_by out = Ok out).
Proof.
  split; [|split].
  - unfold transform. intros out (fl & Hfl & Hout)%bind_Ok.
    assert (Hkept : filter_data out sd ed mr xr mn xn = Ok out).
    { apply filter_data_all_kept.
      rewrite (sort_stage_perm _ _ _ Hout).
      by eapply filter_data_Ok_kept. }
    rewrite Hkept. simpl. by eapply sort_stage_fixed.
  - apply filter_data_fixed.
  - apply sort_stage_fixed.
Qed.

(** C10. The transform passes records through untouched.  What
    [filter_data] returns is a subsequence of the input, in input order;
    what the sort stage returns is a rearrangement of that; so every record
    of the output is a record of the input, the same mapping with every one
    of its fields, those the transform never reads included, and nothing is
    added.  The lists returned are new lists: the input list is an argument
    that no step updates. *)
Theorem transform_passes_records_through
    (data filtered out : list record) (sd ed mr xr mn xn : pyval)
    (sort_by : string) :
  filter_data data sd ed mr xr mn xn = Ok filtered →
  sort_stage sort_by filtered = Ok out →
  filtered `sublist_of` data ∧
  out ≡ₚ filtered ∧
  (∀ r, r ∈ out → r ∈ data) ∧
  (∀ i r, out !! i = Some r →
     ∃ j, data !! j = Some r ∧ ∀ k, r !! k = (data !!! j) !! k) ∧
  transform data sd ed mr xr mn xn sort_by = Ok out.
Proof.
  intros Hfl Hout.
  pose proof (filter_data_sublist _ _ _ _ _ _ _ _ Hfl) as Hsub.
  pose proof (sort_stage_perm _ _ _ Hout) as Hperm.
  assert (Hin : ∀ r, r ∈ out → r ∈ data).
  { intros r Hr. rewrite Hperm in Hr. by eapply sublist_subseteq. }
  repeat split; try done.
  - intros i r Hi. apply list_elem_of_lookup_2, Hin in Hi.
    apply list_elem_of_lookup in Hi as [j Hj]. exists j. split; [done|].
    intros k. by rewrite (list_lookup_total_correct _ _ _ Hj).
  - unfold transform. by rewrite Hfl.
Qed.

(** ** The claims at concrete inputs *)



Lemma filter_data_zero_bound_as_absent_witness :
  filter_data [r2023; r2022] VNone VNone (VFloat 0) VNone VNone VNone =
  filter_data [r2023; r2022] VNone VNone VNone VNone VNone VNone.
Proof.
  destruct (filter_data_zero_bound_as_absent
              [r2023; r2022] (VFloat 0) VNone VNone VNone VNone VNone VNone)
    as (_ & _ & H & _).
  - right. exists 0%Q. split; reflexivity.
  - exact H.
Defined.

Lemma malformed_param_treated_as_absent_witness :
  fetch_data dec_int dec_float (Fetched [r2023; r2022])
    {[ "minRevenue" := "1e" ]} =
  fetch_data dec_int dec_float (Fetched [r2023; r2022])
    (delete "minRevenue" {[ "minRevenue" := "1e" ]}).
Proof.
  destruct (malformed_param_treated_as_absent dec_int dec_float
              (Fetched [r2023; r2022]) {[ "minRevenue" := "1e" ]}
              "minRevenue" "1e") as [H _].
  - reflexivity.
  - right. split; [|reflexivity].
    unfold float_params. apply list_elem_of_here.
  - exact H.
Defined.

Lemma missing_field_fails_where_read_witness :
  raises (filter_data [r2023; r_no_date] (VInt 2020) VNone VNone VNone VNone VNone) ∧
  sort_stage "date" [r2023; r_no_date] = Raise (KeyError "date").
Proof.
  destruct (missing_field_fails_where_read
              [r2023; r_no_date] (VInt 2020) VNone VNone VNone VNone VNone)
    as (Hdate & _ & _ & Hsort & _).
  split.
  - apply (Hdate r_no_date).
    + apply list_elem_of_further, list_elem_of_here.
    + reflexivity.
    + left. reflexivity.
  - apply (Hsort "date" r_no_date).
    + unfold sort_keys. apply list_elem_of_here.
    + apply list_elem_of_further, list_elem_of_here.
    + reflexivity.
Defined.

Lemma unrecognised_sort_key_keeps_filtered_order_witness :
  sort_stage "none" [r2022; r2023] = Ok [r2022; r2023].
Proof.
  destruct (unrecognised_sort_key_keeps_filtered_order "none" [r2022; r2023])
    as [H _].
  - discriminate.
  - discriminate.
  - discriminate.
  - exact H.
Defined.

Lemma absent_sort_key_sorts_by_date_witness :
  fetch_data dec_int dec_float (Fetched [r2022; r2023]) {[ "endDate" := "2022" ]} =
  fetch_data dec_int dec_float (Fetched [r2022; r2023])
    (<["sortBy" := "date"]> {[ "endDate" := "2022" ]}).
Proof.
  destruct (absent_sort_key_sorts_by_date dec_int dec_float) as [H _].
  apply H. reflexivity.
Defined.

Lemma transform_idempotent_witness :
  transform [r2023; r2022] VNone VNone VNone VNone VNone VNone "revenue"
    = Ok [r2022; r2023] ∧
  transform [r2022; r2023] VNone VNone VNone VNone VNone VNone "revenue"
    = Ok [r2022; r2023].
Proof.
  split; [reflexivity|].
  destruct (transform_idempotent [r2023; r2022]
              VNone VNone VNone VNone VNone VNone "revenue") as [H _].
  apply H. reflexivity.
Defined.

Lemma transform_passes_records_through_witness :
  [r2022] `sublist_of` [r2023; r2022] ∧
  ∀ r, r ∈ [r2022] → r ∈ [r2023; r2022].
Proof.
  destruct (transform_passes_records_through
              [r2023; r2022] [r2022] [r2022]
              VNone VNone (VFloat 150) VNone VNone VNone "date")
    as (Hsub & _ & Hin & _).
  - reflexivity.
  - reflexivity.
  - split; assumption.
Defined.

(** ** Further properties of [filter_data] *)

Section filter_more.
Variables sd ed mr xr mn xn : pyval.

(** The loop over a concatenation is the loop over its parts, in order. *)
Lemma filter_data_app_bind (l1 l2 : list record) :
  filter_data (l1 ++ l2) sd ed mr xr mn xn =
    o1 ← filter_data l1 sd ed mr xr mn xn;
    o2 ← filter_data l2 sd ed mr xr mn xn;
    Ok (o1 ++ o2).
Proof.
  induction l1 as [|item rest IH].
  - simpl. change (filter_data [] sd ed mr xr mn xn) with (@Ok (list record) []).
    simpl. by destruct (filter_data l2 _ _ _ _ _ _).
  - rewrite <- app_comm_cons, !filter_data_cons, IH.
    destruct (skipped _ _ _ _ _ _ item) as [s|e]; simpl; [|done].
    destruct (filter_data rest _ _ _ _ _ _) as [o1|e]; simpl; [|done].
    destruct (filter_data l2 _ _ _ _ _ _) as [o2|e]; simpl; [|done].
    by destruct s.
Qed.

(** Records in front of a failing one that pass their checks do not hide
    its exception. *)
Lemma filter_data_first_raise (l1 l2 : list record) (r : record) (e : pyerror) :
  Forall (λ x, ∃ b, skipped sd ed mr xr mn xn x = Ok b) l1 →
  skipped sd ed mr xr mn xn r = Raise e →
  filter_data (l1 ++ r :: l2) sd ed mr xr mn xn = Raise e.
Proof.
  intros Hl1 Hr. induction Hl1 as [|x l1 [b Hb] _ IH]; simpl.
  - by rewrite filter_data_cons, Hr.
  - by rewrite filter_data_cons, Hb, IH.
Qed.
End filter_more.

(** X1. Filtering a concatenation is filtering its two parts and joining
    the results: each record is judged on its own, and an exception raised
    in the first part is the one that escapes. *)
Theorem filter_data_app (l1 l2 : list record) (sd ed mr xr mn xn : pyval) :
  filter_data (l1 ++ l2) sd ed mr xr mn xn =
    o1 ← filter_data l1 sd ed mr xr mn xn;
    o2 ← filter_data l2 sd ed mr xr mn xn;
    Ok (o1 ++ o2).
Proof. apply filter_data_app_bind. Qed.

(** X2. [filter_data] stops at the first record, in list order, whose
    checks raise, and raises that record's exception: the records in front
    of it were examined without an exception, the records behind it are not
    examined at all. *)
Theorem filter_data_raises_first_exception
    (l1 : list record) (r : record) (e : pyerror)
    (sd ed mr xr mn xn : pyval) :
  Forall (λ x, ∃ b, skipped sd ed mr xr mn xn x = Ok b) l1 →
  skipped sd ed mr xr mn xn r = Raise e →
  ∀ l2, filter_data (l1 ++ r :: l2) sd ed mr xr mn xn = Raise e.
Proof.
  intros Hl1 Hr l2. by apply filter_data_first_raise.
Qed.

Lemma filter_data_raises_first_exception_witness :
  filter_data [r2023; r_no_date; r_no_revenue]
    (VInt 2020) VNone (VFloat 50) VNone VNone VNone = Raise (KeyError "date").
Proof.
  apply (filter_data_raises_first_exception [r2023] r_no_date
           (KeyError "date") (VInt 2020) VNone (VFloat 50) VNone VNone VNone).
  - repeat constructor. eexists. reflexivity.
  - reflexivity.
Defined.

(** ** Further properties of the handler *)

Lemma bound_hit_same (b b' : pyval) (r : record) (f : string) cmp :
  same_bound b b' → bound_hit b r f cmp = bound_hit b' r f cmp.
Proof.
  intros [->|[Hb Hb']]; [done|]. unfold bound_hit. by rewrite Hb, Hb'.
Qed.

Lemma filter_data_same_bounds (data : list record)
    sd ed mr xr mn xn sd' ed' mr' xr' mn' xn' :
  same_bound sd sd' → same_bound ed ed' → same_bound mr mr' →
  same_bound xr xr' → same_bound mn mn' → same_bound xn xn' →
  filter_data data sd ed mr xr mn xn =
  filter_data data sd' ed' mr' xr' mn' xn'.
Proof.
  intros H1 H2 H3 H4 H5 H6. unfold filter_data. apply filter_loop_ext.
  intros r. unfold skipped.
  by rewrite (bound_hit_same sd sd'), (bound_hit_same ed ed'),
    (bound_hit_same mr mr'), (bound_hit_same xr xr'),
    (bound_hit_same mn mn'), (bound_hit_same xn xn').
Qed.




(** A value that is not a number is not comparable with a number. *)
Lemma py_lt_not_num (v b : pyval) :
  num_of v = None → is_Some (num_of b) → py_lt v b = Raise TypeError.
Proof.
  intros Hv [q Hq]. destruct v; try done; by destruct b.
Qed.

(** X3. A non-zero [startDate] against a first record whose [date] is
    present but not a number (a string such as the provider's
    ["2023-09-30"], or [null]) makes the comparison raise [TypeError]; the
    handler does not catch it, so the request ends with that exception
    instead of a response. *)
Theorem start_date_against_non_numeric_date_crashes
    (parse_int : string → option Z) (parse_float : string → option Q)
    (r : record) (rest : list record) (args : gmap string string)
    (s : string) (z : Z) (v : pyval) :
  args !! "startDate" = Some s → parse_int s = Some z → z ≠ 0 →
  r !! "date" = Some v → num_of v = None →
  fetch_data parse_int parse_float (Fetched (r :: rest)) args =
    Uncaught TypeError.
Proof.
  intros Hs Hz Hnz Hv Hnum. unfold fetch_data.
  assert (args_get_int parse_int args "startDate" = VInt z) as ->.
  { unfold args_get_int. by rewrite Hs, Hz. }
  rewrite filter_data_cons.
  assert (Hhit : bound_hit (VInt z) r "date" py_lt = Raise TypeError).
  { unfold bound_hit, getitem. simpl.
    replace (z =? 0) with false by (symmetry; apply Z.eqb_neq; lia).
    simpl. rewrite Hv. simpl.
    rewrite py_lt_not_num; [done|done|by eexists]. }
  unfold skipped. by rewrite Hhit.
Qed.

Lemma start_date_against_non_numeric_date_crashes_witness :
  fetch_data dec_int dec_float (Fetched [r_sep; r_jun])
    {[ "startDate" := "2023" ]} = Uncaught TypeError.
Proof.
  apply (start_date_against_non_numeric_date_crashes dec_int dec_float
           r_sep [r_jun] {[ "startDate" := "2023" ]} "2023" 2023
           (VStr "2023-09-30")).
  - reflexivity.
  - reflexivity.
  - discriminate.
  - reflexivity.
  - reflexivity.
Defined.



(** X5. The handler reads seven query parameters and no other: adding,
    changing or removing any parameter with another name leaves the
    response as it was. *)
Theorem unknown_params_ignored
    (parse_int : string → option Z) (parse_float : string → option Q)
    (up : upstream) (args : gmap string string) (k v : string) :
  k ∉ known_params →
  fetch_data parse_int parse_float up (<[k := v]> args) =
    fetch_data parse_int parse_float up args ∧
  fetch_data parse_int parse_float up (delete k args) =
    fetch_data parse_int parse_float up args.
Proof.
  unfold known_params. rewrite !not_elem_of_cons. intros Hk.
  destruct up as [data|e]; [|done].
  unfold fetch_data, args_get_int, args_get_float, args_get_str.
  split.
  - by rewrite !lookup_insert_ne by (intros ->; tauto).
  - by rewrite !lookup_delete_ne by (intros ->; tauto).
Qed.

Lemma unknown_params_ignored_witness :
  fetch_data dec_int dec_float (Fetched [r2023; r2022])
    (<["limit" := "1"]> {[ "sortBy" := "revenue" ]}) =
  fetch_data dec_int dec_float (Fetched [r2023; r2022])
    {[ "sortBy" := "revenue" ]}.
Proof.
  destruct (unknown_params_ignored dec_int dec_float
              (Fetched [r2023; r2022]) {[ "sortBy" := "revenue" ]}
              "limit" "1") as [H _].
  - unfold known_params. rewrite !not_elem_of_cons.
    repeat split; try discriminate. apply not_elem_of_nil.
  - exact H.
Defined.

(** X6. A numeric query parameter whose value converts to zero
    ([startDate=0], [minRevenue=0.0], ...) changes nothing: the handler
    answers exactly as it does to the request without that parameter, for
    every upstream outcome and whatever the other parameters are. *)
Theorem zero_param_treated_as_absent
    (parse_int : string → option Z) (parse_float : string → option Q)
    (up : upstream) (args : gmap string string) (k v : string) :
  args !! k = Some v →
  parses_to_zero parse_int parse_float k v →
  fetch_data parse_int parse_float up args =
    fetch_data parse_int parse_float up (delete k args).
Proof.
  intros Hv Hzero. destruct up as [data|e]; [|done].
  unfold fetch_data.
  assert (Hstr : args_get_str (delete k args) "sortBy" "date" =
                 args_get_str args "sortBy" "date").
  { unfold args_get_str. rewrite lookup_delete_ne; [done|].
    intros ->. unfold parses_to_zero, int_params, float_params in Hzero.
    rewrite !elem_of_cons, !elem_of_nil in Hzero.
    destruct Hzero as [[Hk _]|[Hk _]]; repeat (destruct Hk as [Hk|Hk]); done. }
  rewrite Hstr.
  assert (Hdisj : ∀ key, key ∈ int_params → key ∈ float_params → False).
  { intros key. unfold int_params, float_params.
    rewrite !elem_of_cons, !elem_of_nil.
    intros [->|[->|[]]] Hkey; repeat (destruct Hkey as [Hkey|Hkey]); done. }
  assert (Hint : ∀ key, key ∈ int_params →
            same_bound (args_get_int parse_int args key)
              (args_get_int parse_int (delete k args) key)).
  { intros key Hkey. unfold args_get_int.
    destruct (decide (k = key)) as [<-|Hne].
    - rewrite Hv, lookup_delete_eq. right. split; [|done].
      destruct Hzero as [[_ ->]|[Hk _]]; [done|]. by destruct (Hdisj k).
    - left. by rewrite lookup_delete_ne. }
  assert (Hfloat : ∀ key, key ∈ float_params →
            same_bound (args_get_float parse_float args key)
              (args_get_float parse_float (delete k args) key)).
  { intros key Hkey. unfold args_get_float.
    destruct (decide (k = key)) as [<-|Hne].
    - rewrite Hv, lookup_delete_eq. right. split; [|done].
      destruct Hzero as [[Hk _]|[_ (q & -> & Hq)]]; [by destruct (Hdisj k)|].
      simpl. apply negb_false_iff. by apply Qeq_bool_iff.
    - left. by rewrite lookup_delete_ne. }
  rewrite (filter_data_same_bounds data _ _ _ _ _ _
             (args_get_int parse_int (delete k args) "startDate")
             (args_get_int parse_int (delete k args) "endDate")
             (args_get_float parse_float (delete k args) "minRevenue")
             (args_get_float parse_float (delete k args) "maxRevenue")
             (args_get_float parse_float (delete k args) "minNetIncome")
             (args_get_float parse_float (delete k args) "maxNetIncome"));
    [done|apply Hint|apply Hint|apply Hfloat|apply Hfloat|apply Hfloat|apply Hfloat];
    unfold int_params, float_params; rewrite !elem_of_cons; tauto.
Qed.

Lemma zero_param_treated_as_absent_witness :
  fetch_data dec_int dec_float (Fetched [r2023; r2022])
    {[ "startDate" := "0"; "sortBy" := "revenue" ]} =
  fetch_data dec_int dec_float (Fetched [r2023; r2022])
    (delete "startDate" {[ "startDate" := "0"; "sortBy" := "revenue" ]}).
Proof.
  apply (zero_param_treated_as_absent dec_int dec_float
           (Fetched [r2023; r2022])
           {[ "startDate" := "0"; "sortBy" := "revenue" ]} "startDate" "0").
  - reflexivity.
  - left. split; [|reflexivity]. unfold int_params. apply list_elem_of_here.
Defined.



(** ** How the bounds combine *)


Lemma filter_well_formed (P : record → Prop) `{!∀ r, Decision (P r)}
    (data : list record) :
  Forall well_formed data → Forall well_formed (filter P data).
Proof.
  rewrite !Forall_forall. intros Hwf r [_ Hr]%list_elem_of_filter. by apply Hwf.
Qed.

Lemma bound_wf_None : bound_wf VNone.
Proof. intros H. discriminate H. Qed.

Lemma lower_ok_None (r : record) (f : string) : lower_ok VNone r f.
Proof. intros H. discriminate H. Qed.

Lemma upper_ok_None (r : record) (f : string) : upper_ok VNone r f.
Proof. intros H. discriminate H. Qed.

(** X8. On well-formed records the six bounds act independently of one
    another: filtering by the two date bounds, then filtering the result
    by the two revenue bounds, then that result by the two net-income
    bounds, gives the list that one call with all six bounds gives. *)
Theorem bounds_apply_independently
    (data : list record) (sd ed mr xr mn xn : pyval) :
  Forall well_formed data →
  bound_wf sd → bound_wf ed → bound_wf mr → bound_wf xr →
  bound_wf mn → bound_wf xn →
  ∃ by_date by_revenue out,
    filter_data data sd ed VNone VNone VNone VNone = Ok by_date ∧
    filter_data by_date VNone VNone mr xr VNone VNone = Ok by_revenue ∧
    filter_data by_revenue VNone VNone VNone VNone mn xn = Ok out ∧
    filter_data data sd ed mr xr mn xn = Ok out.
Proof.
  intros Hwf Hsd Hed Hmr Hxr Hmn Hxn.
  pose proof bound_wf_None as HN.
  eexists _, _, _.
  split; [by apply filter_data_wf|].
  split; [by apply filter_data_wf; try apply filter_well_formed|].
  split; [by apply filter_data_wf; try do 2 apply filter_well_formed|].
  rewrite filter_data_wf by done. f_equal.
  rewrite !list_filter_filter. apply list_filter_iff.
  intros r. unfold within_bounds.
  pose proof (lower_ok_None r "date"). pose proof (upper_ok_None r "date").
  pose proof (lower_ok_None r "revenue"). pose proof (upper_ok_None r "revenue").
  pose proof (lower_ok_None r "netIncome").
  pose proof (upper_ok_None r "netIncome"). tauto.
Qed.

Lemma bounds_apply_independently_witness :
  ∃ by_date by_revenue out,
    filter_data [r2023; r2022] (VInt 2022) VNone VNone VNone VNone VNone
      = Ok by_date ∧
    filter_data by_date VNone VNone VNone (VFloat 150) VNone VNone
      = Ok by_revenue ∧
    filter_data by_revenue VNone VNone VNone VNone VNone VNone = Ok out ∧
    filter_data [r2023; r2022] (VInt 2022) VNone VNone (VFloat 150) VNone VNone
      = Ok out.
Proof.
  apply (bounds_apply_independently [r2023; r2022]
           (VInt 2022) VNone VNone (VFloat 150) VNone VNone).
  - repeat constructor; has_num_tac.
  - number_bound.
  - absent_bound.
  - absent_bound.
  - number_bound.
  - absent_bound.
  - absent_bound.
Defined.



(** ** What determines the sorted list *)

Section stable_sort.
Variable field : string.

Local Abbreviation ge := (λ a b : record, (fld b field <= fld a field)%Q).
Local Abbreviation same q := (λ r : record, (fld r field == q)%Q).

(** A descending list with given members and given order inside each class
    of equal values is unique. *)
Lemma stable_sort_unique (l1 l2 : list record) :
  l1 ≡ₚ l2 → StronglySorted ge l1 → StronglySorted ge l2 →
  (∀ q, filter (same q) l1 = filter (same q) l2) →
  l1 = l2.
Proof.
  revert l2. induction l1 as [|x l1 IH]; intros l2 Hperm Hs1 Hs2 Hst.
  { symmetry. by apply Permutation_nil. }
  destruct l2 as [|y l2].
  { by apply Permutation_nil_r in Hperm. }
  apply StronglySorted_cons in Hs1 as [Hx Hs1].
  apply StronglySorted_cons in Hs2 as [Hy Hs2].
  rewrite Forall_forall in Hx, Hy.
  assert (Hxy : (fld x field == fld y field)%Q).
  { assert (Hx' : x ∈ y :: l2) by (rewrite <- Hperm; left).
    assert (Hy' : y ∈ x :: l1) by (rewrite Hperm; left).
    apply elem_of_cons in Hx' as [->|Hx']; [reflexivity|].
    apply elem_of_cons in Hy' as [->|Hy']; [reflexivity|].
    apply Qle_antisym; auto. }
  assert (x = y) as <-.
  { specialize (Hst (fld x field)). rewrite !filter_cons in Hst.
    rewrite decide_True in Hst by reflexivity.
    rewrite decide_True in Hst by (by symmetry).
    by injection Hst. }
  f_equal. apply IH; [by eapply Permutation_cons_inv|done|done|].
  intros q. specialize (Hst q). rewrite !filter_cons in Hst.
  destruct (decide (fld x field == q)%Q); [by injection Hst|done].
Qed.


End stable_sort.

(** X10. The list the sort returns is the only one with its three
    properties.  Whenever the records hold numbers in the sort field, any
    list that rearranges them, is in descending order of the field and
    keeps records of equal value in their original relative order is the
    list [sorted(..., reverse=True)] returns: no stable sort can answer
    differently. *)
Theorem sorted_desc_is_the_stable_sort
    (field : string) (l candidate : list record) :
  Forall (λ r, has_num r field) l →
  candidate ≡ₚ l →
  StronglySorted (λ a b, (fld b field <= fld a field)%Q) candidate →
  (∀ q, filter (λ r, (fld r field == q)%Q) candidate =
        filter (λ r, (fld r field == q)%Q) l) →
  sorted_desc field l = Ok candidate.
Proof.
  intros Hnum Hperm Hsorted Hstable.
  destruct (sorted_desc_num _ _ Hnum) as (out & -> & Hperm' & Hsorted' & Hst').
  f_equal. apply (stable_sort_unique field); [|done|done|].
  - by rewrite Hperm, Hperm'.
  - intros q. by rewrite Hst', Hstable.
Qed.

Lemma sorted_desc_is_the_stable_sort_witness :
  sorted_desc "revenue" [r2023; r2022] = Ok [r2022; r2023].
Proof.
  apply sorted_desc_is_the_stable_sort.
  - repeat constructor; has_num_tac.
  - apply Permutation_swap.
  - repeat constructor. discriminate.
  - intros q. rewrite !filter_cons, !filter_nil.
    destruct (decide (fld r2022 "revenue" == q)%Q) as [H1|H1];
      destruct (decide (fld r2023 "revenue" == q)%Q) as [H2|H2];
      try reflexivity.
    exfalso. rewrite <- H2 in H1. discriminate H1.
Defined.






(** ** Sorting string keys *)

Lemma ascii_compare_refl (a : ascii) : Ascii.compare a a = Eq.
Proof. unfold Ascii.compare. apply N.compare_refl. Qed.

Lemma string_compare_refl (s : string) : String.compare s s = Eq.
Proof.
  induction s as [|a s IH]; [done|]. simpl. by rewrite ascii_compare_refl.
Qed.

(** The lexicographic order is transitive. *)
Lemma string_compare_not_lt_trans (a b c : string) :
  String.compare a b ≠ Lt → String.compare b c ≠ Lt →
  String.compare a c ≠ Lt.
Proof.
  revert b c. induction a as [|x a IH]; intros [|y b] [|z c]; simpl; try done.
  destruct (Ascii.compare x y) eqn:Hxy; [|done|];
    destruct (Ascii.compare y z) eqn:Hyz; try done.
  - apply Ascii.compare_eq_iff in Hxy as ->.
    apply Ascii.compare_eq_iff in Hyz as ->.
    rewrite ascii_compare_refl. apply IH.
  - apply Ascii.compare_eq_iff in Hxy as ->. by rewrite Hyz.
  - apply Ascii.compare_eq_iff in Hyz as <-. by rewrite Hxy.
  - unfold Ascii.compare in *.
    apply N.compare_gt_iff in Hxy, Hyz.
    assert (N_of_ascii z < N_of_ascii x)%N as ->%N.compare_gt_iff by lia.
    done.
Qed.

Lemma str_ge_trans (a b c : string) : str_ge a b → str_ge b c → str_ge a c.
Proof.
  unfold str_ge, String.ltb. intros Hab Hbc.
  pose proof (string_compare_not_lt_trans a b c) as H.
  destruct (String.compare a b); try done;
    destruct (String.compare b c); try done;
    destruct (String.compare a c); try done; by destruct H.
Qed.

Lemma py_lt_strkey (a b : keyed) :
  strkey a → strkey b → py_lt a.1 b.1 = Ok (String.ltb (skey a) (skey b)).
Proof. intros [s Hs] [t Ht]. unfold skey. by rewrite Hs, Ht. Qed.

Lemma insert_desc_str (x : keyed) (l : list keyed) :
  strkey x → Forall strkey l → ∃ l', insert_desc x l = Ok l'.
Proof.
  intros Hx. induction 1 as [|y rest Hy _ [r Hr]]; simpl; [eauto|].
  rewrite (py_lt_strkey _ _ Hx Hy). simpl.
  destruct (String.ltb _ _); [|eauto]. rewrite Hr. simpl. eauto.
Qed.

Lemma sort_keyed_str (l : list keyed) :
  Forall strkey l → ∃ s, sort_keyed l = Ok s.
Proof.
  induction 1 as [|x rest Hx Hrest [s0 Hs0]]; simpl; [eauto|].
  rewrite Hs0. simpl. apply insert_desc_str; [done|].
  by rewrite (sort_keyed_perm _ _ Hs0).
Qed.

Lemma Sorted_not_lt_str (s : list keyed) :
  Forall strkey s → Sorted not_lt s →
  StronglySorted (λ a b, str_ge (skey a) (skey b)) s.
Proof.
  intros Hstr Hsorted.
  induction Hsorted as [|x s Hs IH Hhd]; [constructor|].
  apply Forall_cons in Hstr as [Hx Hstr].
  specialize (IH Hstr). constructor; [done|].
  destruct Hhd as [|y s Hxy]; [constructor|].
  apply Forall_cons in Hstr as [Hy Hstr].
  unfold not_lt in Hxy. rewrite (py_lt_strkey _ _ Hx Hy) in Hxy.
  injection Hxy as Hxy. constructor; [done|].
  apply StronglySorted_cons in IH as [Hall _].
  eapply Forall_impl; [exact Hall|].
  intros z Hz. by eapply str_ge_trans.
Qed.

Lemma keys_of_sfld (field : string) (p : keyed) :
  getitem p.2 field = Ok p.1 → sfld p.2 field = skey p.
Proof.
  unfold getitem, sfld, skey. destruct (p.2 !! field); [|done]. by intros [= ->].
Qed.

Lemma decorate_has_str (field : string) (l : list record) :
  Forall (λ r, has_str r field) l →
  ∃ ks, decorate field l = Ok ks ∧ Forall strkey ks.
Proof.
  induction 1 as [|r rest [s Hs] _ (ks & Hks & Hstr)]; simpl.
  - eexists. split; [done|constructor].
  - unfold getitem. rewrite Hs. simpl. rewrite Hks. simpl.
    eexists. split; [done|]. constructor; [by exists s|done].
Qed.

(** X13. Sorting works on string dates as the provider sends them.  When
    every record holds a string in the sort field, the sort stage returns
    the records rearranged in descending lexicographic order of that
    string, records with the same string keeping their relative order. *)
Theorem sort_stage_on_string_fields
    (sort_by : string) (filtered : list record) :
  sort_by ∈ sort_keys →
  Forall (λ r, has_str r sort_by) filtered →
  ∃ out,
    sort_stage sort_by filtered = Ok out ∧
    out ≡ₚ filtered ∧
    StronglySorted (λ a b, str_ge (sfld a sort_by) (sfld b sort_by)) out ∧
    (∀ s, filter (λ r, sfld r sort_by = s) out =
          filter (λ r, sfld r sort_by = s) filtered).
Proof.
  intros Hk (ks & Hks & Hstr)%decorate_has_str.
  destruct (sort_keyed_str _ Hstr) as [s Hs].
  destruct (decorate_Ok _ _ _ Hks) as [<- Hkeys].
  pose proof (sort_keyed_perm _ _ Hs) as Hperm.
  assert (Hkeys' : keys_of sort_by s) by (unfold keys_of; by rewrite Hperm).
  assert (Hstr' : Forall strkey s) by (by rewrite Hperm).
  exists (s.*2). rewrite sort_stage_key by done.
  unfold sorted_desc. rewrite Hks. simpl. rewrite Hs. simpl.
  split; [done|]. split; [by rewrite Hperm|]. split.
  - pose proof (Sorted_not_lt_str _ Hstr' (sort_keyed_Sorted _ _ Hs)) as Hsorted.
    clear -Hsorted Hkeys'. induction Hsorted as [|p s Hs IH Hall]; [constructor|].
    apply Forall_cons in Hkeys' as [Hp Hkeys'].
    rewrite fmap_cons. constructor; [by apply IH|].
    rewrite Forall_fmap. rewrite Forall_forall in Hall, Hkeys'.
    apply Forall_forall. intros p' Hp'. simpl.
    rewrite (keys_of_sfld _ _ Hp), (keys_of_sfld _ _ (Hkeys' _ Hp')).
    by apply Hall.
  - intros t. rewrite !filter_fmap. f_equal.
    apply (sort_keyed_filter _ _ _ Hs).
    intros a b Ha Hb Hta Htb. simpl in Hta, Htb.
    rewrite Forall_forall in Hstr. unfold keys_of in Hkeys.
    rewrite Forall_forall in Hkeys.
    rewrite py_lt_strkey by auto. intros [= Hlt].
    rewrite <- (keys_of_sfld sort_by a), <- (keys_of_sfld sort_by b) in Hlt by auto.
    rewrite Hta, Htb in Hlt. unfold String.ltb in Hlt.
    by rewrite string_compare_refl in Hlt.
Qed.

Lemma sort_stage_on_string_fields_witness :
  ∃ out, sort_stage "date" [r_jun; r_sep] = Ok out ∧ out ≡ₚ [r_jun; r_sep].
Proof.
  destruct (sort_stage_on_string_fields "date" [r_jun; r_sep])
    as (out & Hout & Hperm & _).
  - unfold sort_keys. apply list_elem_of_here.
  - repeat constructor; eexists; reflexivity.
  - exists out. split; assumption.
Defined.

(** ** When the sort raises *)











(** ** The exceptions that can escape *)








